(** * The design-pattern demonstrations

    Shallow embeddings of the repository's scripts.  The largest part is
    the Observer demonstration, [src/observer.ts] (and its compiled twin
    [src/observer.js]).  The channel keeps its subscribers in a JavaScript
    array that lives in a store of array objects: [push] mutates the array
    in place, [filter] allocates a new one and the field [subscriber] is
    re-pointed to it, and [map] walks the array object it was called on.
    The store is kept explicit because a subscriber's [update] may call back
    into the channel while a broadcast is running.

    The Adapter and Facade demonstrations ([src/adapter.ts]), the Decorator
    ([src/decorator.ts]) and the Singleton ([src/unnamed/part_002]) come
    first; their methods return the lines they write with [console.log]. *)

From Stdlib Require Import Ascii ZArith.
From stdpp Require Import base list strings pretty.

(** ** Adapter: [src/adapter.ts], lines 1 to 72 *)

Module Adapter.

(** How a call ends: with a value, or with [throw new Error(message)]. *)
Inductive result (A : Type) :=
| Returned (a : A)
| Thrown (message : string).

Arguments Returned {A} a.
Arguments Thrown {A} message.

(** The two classes that implement [AdvancedMediaPlayer]; neither has a
    field. *)
Inductive AdvancedMediaPlayer := VlcPlayer | Mp4Player.

Definition playVlc (this : AdvancedMediaPlayer) (fileName : string)
  : list string :=
  match this with
  | VlcPlayer => ["Playing vlc file: " +:+ fileName]
  | Mp4Player => []
  end.

Definition playMp4 (this : AdvancedMediaPlayer) (fileName : string)
  : list string :=
  match this with
  | VlcPlayer => []
  | Mp4Player => ["Playing mp4 file: " +:+ fileName]
  end.

(** [class MediaAdapter] *)
Record MediaAdapter := { advancedPlayer : AdvancedMediaPlayer }.

(** [new MediaAdapter(audioType)] *)
Definition new_MediaAdapter (audioType : string) : result MediaAdapter :=
  if decide (audioType = "vlc") then
    Returned {| advancedPlayer := VlcPlayer |}
  else if decide (audioType = "mp4") then
    Returned {| advancedPlayer := Mp4Player |}
  else Thrown "Unsupported format".

(** [MediaAdapter.play] *)
Definition MediaAdapter_play (this : MediaAdapter)
    (audioType fileName : string) : list string :=
  if decide (audioType = "vlc") then playVlc (advancedPlayer this) fileName
  else if decide (audioType = "mp4") then
    playMp4 (advancedPlayer this) fileName
  else [].

Definition invalid_format : string :=
  "Invalid media format. Only mp3, mp4, and vlc are supported.".

(** [AudioPlayer.play]; nothing is printed before the adapter is built, so
    an exception of the constructor would leave no output. *)
Definition AudioPlayer_play (audioType fileName : string)
  : result (list string) :=
  if decide (audioType = "mp3") then
    Returned ["Playing mp3 file: " +:+ fileName]
  else if decide (audioType = "vlc" \/ audioType = "mp4") then
    match new_MediaAdapter audioType with
    | Returned adapter =>
        Returned (MediaAdapter_play adapter audioType fileName)
    | Thrown message => Thrown message
    end
  else Returned [invalid_format].

(** The one line the three playing branches have in common. *)
Definition playing (audioType fileName : string) : string :=
  "Playing " +:+ audioType +:+ " file: " +:+ fileName.

End Adapter.

(** ** Facade: [src/adapter.ts], lines 73 to 127 *)

Module Facade.

Definition newline : string := String "010"%char EmptyString.

(** [InventoryService.checkStock]: the line printed and the value
    returned. *)
Definition checkStock (productId : string) : list string * bool :=
  (["✅ Checking stock for product: " +:+ productId], true).

(** [PaymentService.processPayment].  The amount is a whole number of
    rupees, which a template literal prints in plain decimal. *)
Definition processPayment (userId : string) (amount : N)
  : list string * bool :=
  (["💰 Processing payment of ₹" +:+ pretty amount +:+ " for user: "
    +:+ userId], true).

(** [InvoiceService.generateInvoice] *)
Definition generateInvoice (productId userId : string) : list string :=
  ["🧾 Invoice generated for " +:+ productId +:+ " and user " +:+ userId].

(** [NotificationService.sendConfirmationEmail] *)
Definition sendConfirmationEmail (userId : string) : list string :=
  ["📧 Email sent to user " +:+ userId +:+ ": Order Confirmed!"].

Definition starting : string :=
  "🛒 Starting order placement process..." +:+ newline.

Definition out_of_stock : string := "❌ Product is out of stock.".

Definition payment_failed : string := "❌ Payment failed.".

Definition placed : string := newline +:+ "✅ Order placed successfully!".

(** [OrderFacade.placeOrder]: the arguments of its [console.log] calls, in
    order. *)
Definition placeOrder (productId userId : string) : list string :=
  let '(stock_lines, in_stock) := checkStock productId in
  if negb in_stock then [starting] ++ stock_lines ++ [out_of_stock]
  else
    let amount := 499%N in
    let '(payment_lines, paid) := processPayment userId amount in
    if negb paid then
      [starting] ++ stock_lines ++ payment_lines ++ [payment_failed]
    else
      [starting] ++ stock_lines ++ payment_lines
      ++ generateInvoice productId userId
      ++ sendConfirmationEmail userId
      ++ [placed].

End Facade.

(** ** Decorator: [src/decorator.ts], lines 1 to 54 *)

Module Decorator.

(** The objects the four classes build: a [CoffeeDecorator] and its two
    subclasses hold the coffee they wrap. *)
Inductive Coffee :=
| SimpleCoffee
| CoffeeDecorator (coffee : Coffee)
| MilkDecorator (coffee : Coffee)
| SugarDecorator (coffee : Coffee).

(** [cost()].  [super.cost()] is [CoffeeDecorator]'s method, which asks the
    wrapped coffee.  The prices are small whole numbers, on which the
    additions are exact. *)
Fixpoint cost (this : Coffee) : Z :=
  match this with
  | SimpleCoffee => 50
  | CoffeeDecorator coffee => cost coffee
  | MilkDecorator coffee => cost coffee + 10
  | SugarDecorator coffee => cost coffee + 5
  end.

(** [description()] *)
Fixpoint description (this : Coffee) : string :=
  match this with
  | SimpleCoffee => "Simple coffee"
  | CoffeeDecorator coffee => description coffee
  | MilkDecorator coffee => description coffee +:+ ", Milk"
  | SugarDecorator coffee => description coffee +:+ ", Sugar"
  end.

(** How many [MilkDecorator]s, and how many [SugarDecorator]s, a coffee is
    wrapped in. *)
Fixpoint milks (c : Coffee) : nat :=
  match c with
  | SimpleCoffee => 0
  | CoffeeDecorator c => milks c
  | MilkDecorator c => S (milks c)
  | SugarDecorator c => milks c
  end.

Fixpoint sugars (c : Coffee) : nat :=
  match c with
  | SimpleCoffee => 0
  | CoffeeDecorator c => sugars c
  | MilkDecorator c => sugars c
  | SugarDecorator c => S (sugars c)
  end.

End Decorator.

(** ** Singleton: [src/unnamed/part_002], lines 2 to 10 *)

Module Singleton.

(** The static field [SingletonClass.instance], [None] while it is
    [undefined], and the number of [SingletonClass] objects constructed so
    far, which is also the reference the next one gets. *)
Record Statics := { instance : option nat; constructed : nat }.

(** The class before the first call. *)
Definition loaded : Statics := {| instance := None; constructed := 0 |}.

(** [SingletonClass.getInstance()]: an object is truthy, [undefined] is
    not. *)
Definition getInstance (s : Statics) : nat * Statics :=
  match instance s with
  | Some r => (r, s)
  | None =>
      (constructed s,
       {| instance := Some (constructed s);
          constructed := S (constructed s) |})
  end.

(** [n] calls in a row: the references returned and the statics left. *)
Fixpoint getInstances (n : nat) (s : Statics) : list nat * Statics :=
  match n with
  | 0 => ([], s)
  | S n' =>
      let '(r, s') := getInstance s in
      let '(rs, s'') := getInstances n' s' in
      (r :: rs, s'')
  end.

End Singleton.

(** ** Observer: [src/observer.ts] *)

Module Observer.

(** ** Values and objects *)

(** References into the store (object identity). *)
Abbreviation Ref := nat (only parsing).

(** What an array slot or an argument can hold at run time. *)
Inductive value :=
| VUndefined
| VNull
| VObj (r : Ref).

#[global] Instance value_eq_dec : EqDecision value.
Proof. solve_decision. Defined.

Definition is_obj (v : value) : Prop :=
  match v with VObj _ => True | _ => False end.

#[global] Instance is_obj_dec v : Decision (is_obj v).
Proof. destruct v; simpl; apply _. Defined.

(** What the body of an [update] method can do to the outside world: write
    a line to the console, or call one of the channel's two mutators.  A
    body that starts a broadcast of its own is not covered. *)
Inductive Cmd :=
| Log (line : string)
| AddSubscriber (v : value)
| RemoveSubscriber (v : value).

(** [interface Subscriber { update(videoTitle: string): void }] *)
Record Subscriber := { update : string -> list Cmd }.

Definition dquote : string := String "034"%char EmptyString.

Definition notified (name videoTitle : string) : string :=
  "🔔 " +:+ name +:+ " got notified: New video " +:+ dquote
  +:+ videoTitle +:+ dquote +:+ " uploaded!".

(** [class UserSubscriber]: [update] prints one line. *)
Definition UserSubscriber (name : string) : Subscriber :=
  {| update := fun videoTitle => [Log (notified name videoTitle)] |}.

(** ** The channel and the machine it runs on *)

(** [class YoutubeChannel]: its two private fields. *)
Record YoutubeChannel := { subscriber : Ref; name : string }.

Inductive completion := Normal | TypeError.

#[global] Instance completion_eq_dec : EqDecision completion.
Proof. solve_decision. Defined.

(** The channel object, the store of array objects, the lines written by
    [console.log], and a ghost log of the [update] invocations made. *)
Record Machine := {
  this : YoutubeChannel;
  arrays : list (list value);
  console : list string;
  invoked : list (value * string)
}.

Definition console_log (line : string) (m : Machine) : Machine :=
  {| this := this m; arrays := arrays m;
     console := console m ++ [line]; invoked := invoked m |}.

Definition record_call (v : value) (arg : string) (m : Machine) : Machine :=
  {| this := this m; arrays := arrays m;
     console := console m; invoked := invoked m ++ [(v, arg)] |}.

(** The array object behind a reference; nothing at a dangling one. *)
Definition deref (O : Ref) (m : Machine) : list value :=
  default [] (arrays m !! O).

(** The array [this.subscriber] points to. *)
Definition current (m : Machine) : list value :=
  deref (subscriber (this m)) m.

(** The field [subscriber] points into the store. *)
Definition wf (m : Machine) : Prop :=
  subscriber (this m) < length (arrays m).

#[global] Instance wf_dec m : Decision (wf m).
Proof. unfold wf. apply _. Defined.

(** [new YoutubeChannel(channelName)]: the field initialiser allocates an
    empty array. *)
Definition new_YoutubeChannel (channelName : string) : Machine :=
  {| this := {| subscriber := 0; name := channelName |};
     arrays := [[]]; console := []; invoked := [] |}.

(** [this.subscriber.push(subscriber)]: in place. *)
Definition addSubscriber (v : value) (m : Machine) : Machine :=
  {| this := this m;
     arrays := alter (fun a => a ++ [v]) (subscriber (this m)) (arrays m);
     console := console m; invoked := invoked m |}.

(** [this.subscriber = this.subscriber.filter((sub) => sub !== subscriber)]:
    [filter] builds a new array object, the old one is left as it is; [!==]
    on references is identity. *)
Definition removeSubscriber (v : value) (m : Machine) : Machine :=
  {| this := {| subscriber := length (arrays m); name := name (this m) |};
     arrays := arrays m ++ [filter (fun sub => sub ≠ v) (current m)];
     console := console m; invoked := invoked m |}.

Definition exec_cmd (c : Cmd) (m : Machine) : Machine :=
  match c with
  | Log line => console_log line m
  | AddSubscriber v => addSubscriber v m
  | RemoveSubscriber v => removeSubscriber v m
  end.

Definition exec (body : list Cmd) (m : Machine) : Machine :=
  fold_left (fun m c => exec_cmd c m) body m.

Section Channel.

(** The subscriber objects of the program, by reference.  They are never
    mutated after construction. *)
Variable objects : Ref -> Subscriber.

(** [subscriber.update(title)]: a property access on [null] or [undefined]
    throws. *)
Definition call_update (v : value) (title : string) (m : Machine)
  : Machine * completion :=
  match v with
  | VObj r => (exec (update (objects r) title) (record_call v title m), Normal)
  | _ => (m, TypeError)
  end.

(** [Array.prototype.map] on the array object [O]: the length is read once
    before the loop, index [k] is read from [O] when the loop reaches it,
    an index that is absent is skipped, and an exception leaves the loop.
    [n] counts the indices still to visit.  The array [map] returns is
    dropped by the caller and is not kept in the store. *)
Fixpoint map_loop (O : Ref) (title : string) (k n : nat) (m : Machine)
  : Machine * completion :=
  match n with
  | 0 => (m, Normal)
  | S n' =>
      match deref O m !! k with
      | None => map_loop O title (S k) n' m
      | Some v =>
          match call_update v title m with
          | (m', Normal) => map_loop O title (S k) n' m'
          | thrown => thrown
          end
      end
  end.

Definition uploaded (channel title : string) : string :=
  "📺 " +:+ channel +:+ " uploaded: " +:+ dquote +:+ title +:+ dquote.

Definition videoUpload (title : string) (m : Machine) : Machine * completion :=
  let m1 := console_log (uploaded (name (this m)) title) m in
  let O := subscriber (this m1) in
  map_loop O title 0 (length (deref O m1)) m1.

(** ** Scripts of calls on the channel *)

Inductive Call :=
| CallAdd (v : value)
| CallRemove (v : value)
| CallUpload (title : string).

Definition step (c : Call) (m : Machine) : Machine * completion :=
  match c with
  | CallAdd v => (addSubscriber v m, Normal)
  | CallRemove v => (removeSubscriber v m, Normal)
  | CallUpload title => videoUpload title m
  end.

(** An uncaught exception ends the script. *)
Fixpoint run (script : list Call) (m : Machine) : Machine * completion :=
  match script with
  | [] => (m, Normal)
  | c :: rest =>
      match step c m with
      | (m', Normal) => run rest m'
      | thrown => thrown
      end
  end.

(** The same walk over slots that were read beforehand: what [map] would
    do if it iterated over a copy of the array. *)
Fixpoint visit (title : string) (vs : list value) (m : Machine)
  : Machine * completion :=
  match vs with
  | [] => (m, Normal)
  | v :: rest =>
      match call_update v title m with
      | (m', Normal) => visit title rest m'
      | thrown => thrown
      end
  end.

End Channel.

(** ** Observations and typing *)

(** What a client of the channel can tell about a machine: the channel's
    name, its subscriber sequence, the console, the [update] log.  Store
    addresses are not observable. *)
Definition view (m : Machine)
  : string * list value * list string * list (value * string) :=
  (name (this m), current m, console m, invoked m).

(** The [update] invocations a call added to the log. *)
Definition calls_since (m m' : Machine) : list (value * string) :=
  drop (length (invoked m)) (invoked m').

(** The lines a call added to the console. *)
Definition lines_since (m m' : Machine) : list string :=
  drop (length (console m)) (console m').

(** How often [x] occurs in [l]. *)
Definition occurrences {A} `{EqDecision A} (x : A) (l : list A) : nat :=
  length (filter (fun y => y = x) l).

(** The array object at [O] starts with the slots [a]. *)
Definition holds (O : Ref) (a : list value) (m : Machine) : Prop :=
  exists ext, arrays m !! O = Some (a ++ ext).

(** Two machines a client cannot tell apart. *)
Definition alike (m1 m2 : Machine) : Prop :=
  wf m1 /\ wf m2 /\ view m1 = view m2.

(** The part of a machine the channel's methods read and write. *)
Definition store (m : Machine) : YoutubeChannel * list (list value) :=
  (this m, arrays m).

(** [addSubscriber] called for each handle of [vs], first to last. *)
Definition subscribe_all (vs : list value) (m : Machine) : Machine :=
  foldl (fun m v => addSubscriber v m) m vs.

(** An argument of static type [Subscriber] is an object reference. *)
Definition cmd_typed (c : Cmd) : Prop :=
  match c with
  | Log _ => True
  | AddSubscriber v | RemoveSubscriber v => is_obj v
  end.

Definition objects_typed (objects : Ref -> Subscriber) : Prop :=
  forall r title, Forall cmd_typed (update (objects r) title).

Definition call_typed (c : Call) : Prop :=
  match c with
  | CallAdd v | CallRemove v => is_obj v
  | CallUpload _ => True
  end.

(** A subscriber whose [update] never calls back into the channel. *)
Definition is_log (c : Cmd) : Prop :=
  match c with Log _ => True | _ => False end.

Definition passive (objects : Ref -> Subscriber) (v : value) : Prop :=
  match v with
  | VObj r => forall title, Forall is_log (update (objects r) title)
  | _ => True
  end.

(** The slot [v] holds a [UserSubscriber] object with the given name. *)
Definition user_named (objects : Ref -> Subscriber) (v : value) (n : string)
  : Prop :=
  exists r, v = VObj r /\ objects r = UserSubscriber n.

(** The bodies of the [update] methods of the slots [vs], in order. *)
Definition callbacks (objects : Ref -> Subscriber) (title : string)
    (vs : list value) : list Cmd :=
  vs ≫= fun v =>
    match v with
    | VObj r => update (objects r) title
    | _ => []
    end.

(** ** The output format as the specification words it *)

Definition spec_announcement (notifier event : string) : string :=
  notifier +:+ " emitted: " +:+ dquote +:+ event +:+ dquote.

Definition spec_notification (subscriber_name event : string) : string :=
  subscriber_name +:+ " notified: " +:+ dquote +:+ event +:+ dquote.

Definition spec_output (notifier event : string) (names : list string)
  : list string :=
  spec_announcement notifier event
  :: map (fun n => spec_notification n event) names.

(** ** The objects of the demonstration script, and a re-entrant variant *)

(** [subscriber1], [subscriber2], [subscriber3] of the script. *)
Definition demo_objects (r : Ref) : Subscriber :=
  match r with
  | 0 => UserSubscriber "A"
  | 1 => UserSubscriber "B"
  | _ => UserSubscriber "C"
  end.

Definition demo_channel : Machine :=
  addSubscriber (VObj 2) (addSubscriber (VObj 1) (addSubscriber (VObj 0)
    (new_YoutubeChannel "codeWithMe"))).

(** The first subscriber of the script registered twice. *)
Definition twice_channel : Machine :=
  addSubscriber (VObj 0) (addSubscriber (VObj 1) (addSubscriber (VObj 0)
    (new_YoutubeChannel "codeWithMe"))).

(** The same three references, but the second subscriber's [update]
    subscribes a fourth object and unsubscribes the third one. *)
Definition reentrant_objects (r : Ref) : Subscriber :=
  match r with
  | 0 => UserSubscriber "A"
  | 1 => {| update := fun _ =>
              [AddSubscriber (VObj 3); RemoveSubscriber (VObj 2)] |}
  | 2 => UserSubscriber "C"
  | _ => UserSubscriber "D"
  end.

(** Case analysis on a reference into one of the object tables above. *)
Ltac by_cases_on_ref r :=
  destruct r as [|[|[|r]]]; simpl; repeat constructor.

(** ** Counting occurrences *)

Section Occurrences.

Context {A : Type} `{EqDecision A}.

Implicit Types (x y : A) (l : list A).

Lemma occurrences_app x l1 l2 :
  occurrences x (l1 ++ l2) = occurrences x l1 + occurrences x l2.
Proof. unfold occurrences. by rewrite filter_app, length_app. Qed.

Lemma occurrences_replicate x n : occurrences x (replicate n x) = n.
Proof.
  unfold occurrences. induction n as [|n IH]; simpl; [done|].
  rewrite filter_cons_True by done. simpl. by rewrite IH.
Qed.

Lemma occurrences_zero x l : x ∉ l -> occurrences x l = 0.
Proof.
  unfold occurrences. induction l as [|y l IH]; intros Hx; [done|].
  apply not_elem_of_cons in Hx as [Hne Hx].
  rewrite filter_cons_False by congruence. auto.
Qed.

Lemma filter_ne_absent x l : x ∉ l -> filter (fun y => y ≠ x) l = l.
Proof.
  induction l as [|y l IH]; intros Hx; [done|].
  apply not_elem_of_cons in Hx as [Hne Hx].
  rewrite filter_cons_True by congruence. by rewrite IH.
Qed.

Lemma occurrences_filter_ne x y l :
  x ≠ y -> occurrences x (filter (fun z => z ≠ y) l) = occurrences x l.
Proof.
  intros Hne. unfold occurrences. induction l as [|z l IH]; [done|].
  destruct (decide (z = y)) as [->|Hz].
  - rewrite (filter_cons_False (fun z => z ≠ y)) by auto.
    rewrite (filter_cons_False (fun z => z = x)) by congruence. done.
  - rewrite (filter_cons_True (fun z => z ≠ y)) by done.
    destruct (decide (z = x)) as [->|Hx].
    + rewrite !(filter_cons_True (fun z => z = x)) by done. simpl.
      by rewrite IH.
    + rewrite !(filter_cons_False (fun z => z = x)) by done. done.
Qed.

End Occurrences.

Lemma occurrences_tagged (v : value) (title : string) (vs : list value) :
  occurrences (v, title) ((fun v => (v, title)) <$> vs) = occurrences v vs.
Proof.
  unfold occurrences. induction vs as [|w vs IH]; [done|].
  rewrite fmap_cons. destruct (decide (w = v)) as [->|Hw].
  - rewrite !filter_cons_True by done. simpl. by rewrite IH.
  - rewrite !filter_cons_False by congruence. done.
Qed.

Lemma calls_since_app m m' new :
  invoked m' = invoked m ++ new -> calls_since m m' = new.
Proof. unfold calls_since. intros ->. apply drop_app_length. Qed.

(** ** The store: references stay valid, arrays only grow *)

Section Store.

Implicit Types (m : Machine) (v : value) (O : Ref) (a : list value).

Lemma wf_new_YoutubeChannel channelName : wf (new_YoutubeChannel channelName).
Proof. unfold wf; simpl; lia. Qed.

Lemma wf_addSubscriber v m : wf m -> wf (addSubscriber v m).
Proof. unfold wf; simpl. by rewrite length_alter. Qed.

Lemma wf_removeSubscriber v m : wf (removeSubscriber v m).
Proof. unfold wf; simpl. rewrite length_app; simpl; lia. Qed.

Lemma wf_exec_cmd c m : wf m -> wf (exec_cmd c m).
Proof.
  destruct c; simpl; auto using wf_addSubscriber, wf_removeSubscriber.
Qed.

Lemma exec_app body1 body2 m :
  exec (body1 ++ body2) m = exec body2 (exec body1 m).
Proof. unfold exec. apply fold_left_app. Qed.

Lemma wf_exec body m : wf m -> wf (exec body m).
Proof.
  revert m; induction body as [|c body IH]; intros m Hm; simpl; [done|].
  apply IH, wf_exec_cmd, Hm.
Qed.

Lemma current_new_YoutubeChannel channelName :
  current (new_YoutubeChannel channelName) = [].
Proof. reflexivity. Qed.

Lemma current_addSubscriber v m :
  wf m -> current (addSubscriber v m) = current m ++ [v].
Proof.
  unfold wf, current, deref; simpl; intros Hm.
  destruct (lookup_lt_is_Some_2 _ _ Hm) as [a Ha].
  by rewrite list_lookup_alter_eq, Ha.
Qed.

Lemma current_removeSubscriber v m :
  current (removeSubscriber v m) = filter (fun sub => sub ≠ v) (current m).
Proof.
  unfold current at 1, deref; simpl.
  by rewrite lookup_app_r, Nat.sub_diag by lia.
Qed.

(** Once an array object holds the slots [a], it holds them for good:
    [push] only appends, and [filter] writes to a fresh address. *)
Lemma holds_addSubscriber O a v m :
  holds O a m -> holds O a (addSubscriber v m).
Proof.
  intros [ext H]; unfold holds; simpl.
  destruct (decide (subscriber (this m) = O)) as [->|Hne].
  - exists (ext ++ [v]). rewrite list_lookup_alter_eq, H; simpl.
    by rewrite app_assoc.
  - exists ext. by rewrite list_lookup_alter_ne.
Qed.

Lemma holds_removeSubscriber O a v m :
  holds O a m -> holds O a (removeSubscriber v m).
Proof.
  intros [ext H]; exists ext; simpl.
  rewrite lookup_app_l; [done|]. by apply lookup_lt_is_Some; eauto.
Qed.

Lemma holds_exec_cmd O a c m : holds O a m -> holds O a (exec_cmd c m).
Proof.
  destruct c; simpl; auto using holds_addSubscriber, holds_removeSubscriber.
Qed.

Lemma holds_exec O a body m : holds O a m -> holds O a (exec body m).
Proof.
  revert m; induction body as [|c body IH]; intros m Hm; simpl; [done|].
  apply IH, holds_exec_cmd, Hm.
Qed.

Lemma holds_lookup O a m k v :
  holds O a m -> a !! k = Some v -> deref O m !! k = Some v.
Proof.
  intros [ext H] Hk. unfold deref. rewrite H; simpl.
  by apply lookup_app_l_Some.
Qed.

End Store.

(** ** The walk of [map] sees the array as it was when [map] was called *)

Section Broadcast.

Variable objects : Ref -> Subscriber.

Implicit Types (m : Machine) (v : value) (O : Ref) (a vs : list value).

Lemma holds_call_update O a v title m m' c :
  holds O a m -> call_update objects v title m = (m', c) -> holds O a m'.
Proof.
  intros Hm; destruct v; simpl; intros [= <- <-]; [done..|].
  by apply holds_exec.
Qed.

Lemma map_loop_visit O title a n k m :
  holds O a m -> k + n = length a ->
  map_loop objects O title k n m = visit objects title (drop k a) m.
Proof.
  revert k m; induction n as [|n IH]; intros k m Hm Hlen; simpl.
  - by rewrite drop_ge by lia.
  - destruct (lookup_lt_is_Some_2 a k) as [v Hv]; [lia|].
    rewrite (holds_lookup _ _ _ _ _ Hm Hv), (drop_S _ _ _ Hv); simpl.
    destruct (call_update objects v title m) as [m' []] eqn:E; [|done].
    apply IH; [|lia]. eapply holds_call_update; eauto.
Qed.

Lemma videoUpload_visit title m :
  videoUpload objects title m
  = visit objects title (current m)
      (console_log (uploaded (name (this m)) title) m).
Proof.
  unfold videoUpload, current, deref; simpl.
  destruct (arrays m !! subscriber (this m)) as [a|] eqn:E; simpl; [|done].
  rewrite (map_loop_visit _ _ a); [done| |done].
  exists []. simpl. by rewrite app_nil_r.
Qed.

(** *** What the walk leaves in the [update] log *)

Lemma invoked_exec body m : invoked (exec body m) = invoked m.
Proof.
  revert m; induction body as [|c body IH]; intros m; simpl; [done|].
  rewrite IH. by destruct c.
Qed.

Lemma name_exec body m : name (this (exec body m)) = name (this m).
Proof.
  revert m; induction body as [|c body IH]; intros m; simpl; [done|].
  rewrite IH. by destruct c.
Qed.

Lemma visit_invoked title vs m :
  exists seen,
    seen `prefix_of` vs
    /\ invoked (visit objects title vs m).1
        = invoked m ++ ((fun v => (v, title)) <$> seen)
    /\ ((visit objects title vs m).2 = Normal -> seen = vs).
Proof.
  revert m; induction vs as [|v vs IH]; intros m; simpl.
  - exists []. by rewrite app_nil_r.
  - destruct v as [| |r]; simpl;
      try (exists []; rewrite app_nil_r; split_and!; [apply prefix_nil|done..]).
    destruct (IH (exec (update (objects r) title)
                    (record_call (VObj r) title m)))
      as (seen & Hpre & Hinv & Hall).
    exists (VObj r :: seen). split_and!.
    + by apply prefix_cons.
    + rewrite Hinv, invoked_exec; simpl. by rewrite <- app_assoc.
    + intros Hn. by rewrite Hall.
Qed.

Lemma visit_objects title vs m :
  Forall is_obj vs ->
  (visit objects title vs m).2 = Normal
  /\ invoked (visit objects title vs m).1
      = invoked m ++ ((fun v => (v, title)) <$> vs).
Proof.
  intros Hvs; revert m; induction Hvs as [|v vs Hv Hvs IH]; intros m; simpl.
  - by rewrite app_nil_r.
  - destruct v as [| |r]; try done; simpl.
    destruct (IH (exec (update (objects r) title)
                    (record_call (VObj r) title m))) as [Hn Hinv].
    split; [done|]. rewrite Hinv, invoked_exec; simpl. by rewrite <- app_assoc.
Qed.

Lemma visit_name title vs m :
  name (this (visit objects title vs m).1) = name (this m).
Proof.
  revert m; induction vs as [|v vs IH]; intros m; simpl; [done|].
  destruct v as [| |r]; simpl; try done.
  by rewrite IH, name_exec.
Qed.

(** *** Every machine a script reaches is well formed *)

Lemma wf_visit title vs m : wf m -> wf (visit objects title vs m).1.
Proof.
  revert m; induction vs as [|v vs IH]; intros m Hm; simpl; [done|].
  destruct v as [| |r]; simpl; try done.
  by apply IH, wf_exec.
Qed.

Lemma wf_step c m : wf m -> wf (step objects c m).1.
Proof.
  intros Hm. destruct c as [v|v|title]; simpl.
  - by apply wf_addSubscriber.
  - apply wf_removeSubscriber.
  - rewrite videoUpload_visit. by apply wf_visit.
Qed.

Lemma wf_run script m : wf m -> wf (run objects script m).1.
Proof.
  revert m; induction script as [|c script IH]; intros m Hm; simpl; [done|].
  pose proof (wf_step c m Hm) as Hs.
  destruct (step objects c m) as [m' []]; simpl in *; auto.
Qed.

(** *** Typed calls keep [null] and [undefined] out of the sequence *)

Lemma typed_exec_cmd c m :
  cmd_typed c -> wf m -> Forall is_obj (current m) ->
  wf (exec_cmd c m) /\ Forall is_obj (current (exec_cmd c m)).
Proof.
  intros Hc Hm Hcur; split; [by apply wf_exec_cmd|].
  destruct c as [line|v|v]; simpl in *.
  - done.
  - rewrite current_addSubscriber by done. apply Forall_app; auto.
  - rewrite current_removeSubscriber.
    eapply Forall_forall; intros x [_ Hx]%list_elem_of_filter.
    by eapply Forall_forall in Hcur.
Qed.

Lemma typed_exec body m :
  Forall cmd_typed body -> wf m -> Forall is_obj (current m) ->
  wf (exec body m) /\ Forall is_obj (current (exec body m)).
Proof.
  intros Hbody; revert m.
  induction Hbody as [|c body Hc Hbody IH]; intros m Hm Hcur; simpl; [done|].
  destruct (typed_exec_cmd c m) as [? ?]; auto.
Qed.

Lemma typed_visit title vs m :
  objects_typed objects -> Forall is_obj vs ->
  wf m -> Forall is_obj (current m) ->
  (visit objects title vs m).2 = Normal
  /\ wf (visit objects title vs m).1
  /\ Forall is_obj (current (visit objects title vs m).1).
Proof.
  intros Hobj Hvs; revert m.
  induction Hvs as [|v vs Hv Hvs IH]; intros m Hm Hcur; simpl; [done|].
  destruct v as [| |r]; try done; simpl.
  destruct (typed_exec (update (objects r) title)
              (record_call (VObj r) title m)) as [? ?]; auto.
Qed.

Lemma typed_step c m :
  objects_typed objects -> call_typed c ->
  wf m -> Forall is_obj (current m) ->
  (step objects c m).2 = Normal
  /\ wf (step objects c m).1
  /\ Forall is_obj (current (step objects c m).1).
Proof.
  intros Hobj Hc Hm Hcur. destruct c as [v|v|title]; simpl in *.
  - split; [done|]. by apply (typed_exec_cmd (AddSubscriber v)).
  - split; [done|]. by apply (typed_exec_cmd (RemoveSubscriber v)).
  - rewrite videoUpload_visit. by apply typed_visit.
Qed.

Lemma typed_run script m :
  objects_typed objects -> Forall call_typed script ->
  wf m -> Forall is_obj (current m) ->
  (run objects script m).2 = Normal
  /\ wf (run objects script m).1
  /\ Forall is_obj (current (run objects script m).1).
Proof.
  intros Hobj Hs; revert m.
  induction Hs as [|c script Hc Hs IH]; intros m Hm Hcur; simpl; [done|].
  destruct (typed_step c m) as (Hn & ? & ?); auto.
  destruct (step objects c m) as [m' []]; simpl in *; [auto|done].
Qed.

(** *** Machines with the same view stay alike *)

Lemma alike_exec_cmd c m1 m2 :
  alike m1 m2 -> alike (exec_cmd c m1) (exec_cmd c m2).
Proof.
  intros (H1 & H2 & [= Hn Hc Ho Hi]).
  split_and!; [by apply wf_exec_cmd..|].
  unfold view. destruct c as [line|v|v]; simpl.
  - change (current (console_log line m1)) with (current m1).
    change (current (console_log line m2)) with (current m2).
    by rewrite Hn, Hc, Ho, Hi.
  - rewrite !current_addSubscriber by done. by rewrite Hn, Hc, Ho, Hi.
  - rewrite !current_removeSubscriber. by rewrite Hn, Hc, Ho, Hi.
Qed.

Lemma alike_exec body m1 m2 :
  alike m1 m2 -> alike (exec body m1) (exec body m2).
Proof.
  revert m1 m2; induction body as [|c body IH]; intros m1 m2 H; simpl; [done|].
  by apply IH, alike_exec_cmd.
Qed.

Lemma alike_record_call v arg m1 m2 :
  alike m1 m2 -> alike (record_call v arg m1) (record_call v arg m2).
Proof.
  intros (H1 & H2 & [= Hn Hc Ho Hi]). split_and!; [done..|].
  unfold view; simpl.
  change (current (record_call v arg m1)) with (current m1).
  change (current (record_call v arg m2)) with (current m2).
  by rewrite Hn, Hc, Ho, Hi.
Qed.

Lemma alike_console_log line m1 m2 :
  alike m1 m2 -> alike (console_log line m1) (console_log line m2).
Proof. apply (alike_exec_cmd (Log line)). Qed.

Lemma alike_visit title vs m1 m2 :
  alike m1 m2 ->
  alike (visit objects title vs m1).1 (visit objects title vs m2).1
  /\ (visit objects title vs m1).2 = (visit objects title vs m2).2.
Proof.
  revert m1 m2; induction vs as [|v vs IH]; intros m1 m2 H; simpl; [done|].
  destruct v as [| |r]; simpl; try done.
  by apply IH, alike_exec, alike_record_call.
Qed.

Lemma alike_step c m1 m2 :
  alike m1 m2 ->
  alike (step objects c m1).1 (step objects c m2).1
  /\ (step objects c m1).2 = (step objects c m2).2.
Proof.
  intros H. destruct c as [v|v|title]; simpl.
  - split; [|done]. by apply (alike_exec_cmd (AddSubscriber v)).
  - split; [|done]. by apply (alike_exec_cmd (RemoveSubscriber v)).
  - rewrite !videoUpload_visit.
    destruct H as (H1 & H2 & Hv). pose proof Hv as [= Hn Hc _ _].
    rewrite Hn, Hc. by apply alike_visit, alike_console_log.
Qed.

Lemma alike_run script m1 m2 :
  alike m1 m2 ->
  alike (run objects script m1).1 (run objects script m2).1
  /\ (run objects script m1).2 = (run objects script m2).2.
Proof.
  revert m1 m2; induction script as [|c script IH]; intros m1 m2 H;
    simpl; [done|].
  destruct (alike_step c m1 m2 H) as [Hs Hc].
  destruct (step objects c m1) as [m1' c1], (step objects c m2) as [m2' c2].
  simpl in *; subst c2. destruct c1; [by apply IH|done].
Qed.

(** *** Subscribers that only print *)

Lemma passive_UserSubscriber r n :
  objects r = UserSubscriber n -> passive objects (VObj r).
Proof. intros H title; rewrite H; simpl. by repeat constructor. Qed.

Lemma exec_logs body m :
  Forall is_log body ->
  this (exec body m) = this m /\ arrays (exec body m) = arrays m.
Proof.
  intros Hbody; revert m.
  induction Hbody as [|c body Hc Hbody IH]; intros m; simpl; [done|].
  destruct c; try done. apply (IH (console_log line m)).
Qed.

Lemma visit_passive title vs m :
  Forall (passive objects) vs ->
  this (visit objects title vs m).1 = this m
  /\ arrays (visit objects title vs m).1 = arrays m.
Proof.
  intros Hvs; revert m.
  induction Hvs as [|v vs Hv Hvs IH]; intros m; simpl; [done|].
  destruct v as [| |r]; simpl; try done.
  destruct (IH (exec (update (objects r) title)
                  (record_call (VObj r) title m))) as [-> ->].
  apply (exec_logs _ (record_call (VObj r) title m)), Hv.
Qed.

Lemma visit_user_named title vs names m :
  Forall2 (user_named objects) vs names ->
  (visit objects title vs m).2 = Normal
  /\ console (visit objects title vs m).1
      = console m ++ ((fun n => notified n title) <$> names).
Proof.
  intros H; revert m.
  induction H as [|v n vs names (r & -> & Hr) H IH]; intros m; simpl.
  - by rewrite app_nil_r.
  - rewrite Hr; simpl.
    destruct (IH (console_log (notified n title)
                    (record_call (VObj r) title m))) as [-> ->].
    split; [done|]. simpl. by rewrite <- app_assoc.
Qed.

Lemma videoUpload_objects title m :
  Forall is_obj (current m) ->
  (videoUpload objects title m).2 = Normal
  /\ invoked (videoUpload objects title m).1
      = invoked m ++ ((fun v => (v, title)) <$> current m)
  /\ calls_since m (videoUpload objects title m).1
      = (fun v => (v, title)) <$> current m.
Proof.
  intros Hcur. rewrite videoUpload_visit.
  destruct (visit_objects title (current m)
              (console_log (uploaded (name (this m)) title) m) Hcur)
    as [Hn Hinv].
  simpl in Hinv. split_and!; [done..|]. by apply calls_since_app.
Qed.

(** ** The channel's contract *)

(** C1.  When no slot of the subscriber array is [null] or [undefined],
    [videoUpload] returns normally, and by then it has called [update(title)]
    once for every slot of the array as it stood at the call, duplicates
    included, in array order; the number of [update] calls is the length of
    the array. *)
Theorem videoUpload_invokes_every_entry title m :
  Forall is_obj (current m) ->
  (videoUpload objects title m).2 = Normal
  /\ invoked (videoUpload objects title m).1
      = invoked m ++ ((fun v => (v, title)) <$> current m)
  /\ calls_since m (videoUpload objects title m).1
      = (fun v => (v, title)) <$> current m
  /\ length (calls_since m (videoUpload objects title m).1)
      = length (current m).
Proof.
  intros Hcur.
  destruct (videoUpload_objects title m Hcur) as (Hn & Hinv & Hcalls).
  split_and!; [done..|]. by rewrite Hcalls, length_fmap.
Qed.

(** C2.  [removeSubscriber(v)] leaves exactly the slots that are not
    identical to [v]: none of the occurrences of [v] stays, every other
    handle keeps all its occurrences, and what stays is in the order it had
    before. *)
Theorem removeSubscriber_removes_all v m :
  current (removeSubscriber v m) = filter (fun sub => sub ≠ v) (current m)
  /\ (v ∉ current (removeSubscriber v m))
  /\ occurrences v (current (removeSubscriber v m)) = 0
  /\ (forall x, x ≠ v ->
        occurrences x (current (removeSubscriber v m))
        = occurrences x (current m))
  /\ (current (removeSubscriber v m) `sublist_of` current m).
Proof.
  rewrite current_removeSubscriber.
  assert (v ∉ filter (fun sub => sub ≠ v) (current m)) as Hv
    by (by intros [Hne _]%list_elem_of_filter).
  split_and!; [done|done| | |].
  - by apply occurrences_zero.
  - intros x Hx. by apply occurrences_filter_ne.
  - apply sublist_filter.
Qed.

(** C3.  A [videoUpload] that directly follows [removeSubscriber(v)] makes
    no [update] call on [v], however often [v] had been added, and whatever
    the subscribers' [update] methods do to the channel meanwhile. *)
Theorem removed_subscriber_not_invoked v title m arg :
  (v, arg) ∉ calls_since (removeSubscriber v m)
               (videoUpload objects title (removeSubscriber v m)).1.
Proof.
  rewrite videoUpload_visit.
  destruct (visit_invoked title (current (removeSubscriber v m))
              (console_log
                 (uploaded (name (this (removeSubscriber v m))) title)
                 (removeSubscriber v m)))
    as (seen & Hpre & Hinv & _).
  rewrite (calls_since_app (removeSubscriber v m) _ _ Hinv).
  intros (w & [= <- _] & Hw)%list_elem_of_fmap.
  eapply elem_of_prefix in Hw; [|done].
  rewrite current_removeSubscriber in Hw.
  by apply list_elem_of_filter in Hw as [Hne _].
Qed.

Lemma wf_iter_addSubscriber v n m :
  wf m -> wf (Nat.iter n (addSubscriber v) m).
Proof. intros Hm. induction n; simpl; auto using wf_addSubscriber. Qed.

Lemma current_iter_addSubscriber v n m :
  wf m ->
  current (Nat.iter n (addSubscriber v) m) = current m ++ replicate n v.
Proof.
  intros Hm. induction n as [|n IH]; simpl.
  - by rewrite app_nil_r.
  - rewrite current_addSubscriber by by apply wf_iter_addSubscriber.
    rewrite IH, <- app_assoc. f_equal. symmetry. apply replicate_S_end.
Qed.

(** C4.  [addSubscriber(v)] puts [v] after the last slot and touches no
    other slot.  Nothing is checked for duplicates: [n] calls put [n] more
    occurrences of [v] at the end, and a later [videoUpload] calls [update]
    on [v] once for each of its occurrences. *)
Theorem addSubscriber_appends v m :
  wf m ->
  current (addSubscriber v m) = current m ++ [v]
  /\ (forall n,
        current (Nat.iter n (addSubscriber v) m)
        = current m ++ replicate n v)
  /\ (forall n,
        occurrences v (current (Nat.iter n (addSubscriber v) m))
        = occurrences v (current m) + n)
  /\ (forall n title,
        Forall is_obj (current m) -> is_obj v ->
        occurrences (v, title)
          (calls_since (Nat.iter n (addSubscriber v) m)
             (videoUpload objects title
                (Nat.iter n (addSubscriber v) m)).1)
        = occurrences v (current m) + n).
Proof.
  intros Hm. split_and!.
  - by apply current_addSubscriber.
  - intros n. by apply current_iter_addSubscriber.
  - intros n. rewrite current_iter_addSubscriber by done.
    by rewrite occurrences_app, occurrences_replicate.
  - intros n title Hcur Hv.
    destruct (videoUpload_objects title
                (Nat.iter n (addSubscriber v) m)) as (_ & _ & ->).
    + rewrite current_iter_addSubscriber by done.
      apply Forall_app; split; [done|]. by apply Forall_replicate.
    + rewrite occurrences_tagged, current_iter_addSubscriber by done.
      by rewrite occurrences_app, occurrences_replicate.
Qed.

(** C5, as amended.  When the slots hold [UserSubscriber] objects with the
    names [names], [videoUpload] returns normally and has written to the
    console the line [uploaded] builds from the channel's name and the
    title, and after it one line per slot, in order, as [notified] builds it
    from the subscriber's name and the title. *)
Theorem videoUpload_prints title m names :
  Forall2 (user_named objects) (current m) names ->
  (videoUpload objects title m).2 = Normal
  /\ console (videoUpload objects title m).1
      = console m ++ uploaded (name (this m)) title
                     :: ((fun n => notified n title) <$> names)
  /\ lines_since m (videoUpload objects title m).1
      = uploaded (name (this m)) title
        :: ((fun n => notified n title) <$> names)
  /\ length (lines_since m (videoUpload objects title m).1)
      = 1 + length (current m).
Proof.
  intros Hnames. rewrite videoUpload_visit.
  destruct (visit_user_named title (current m) names
              (console_log (uploaded (name (this m)) title) m) Hnames)
    as [Hn Hcon].
  simpl in Hcon. rewrite <- app_assoc in Hcon. simpl in Hcon.
  unfold lines_since. rewrite Hcon, drop_app_length. split_and!; [done..|].
  simpl. by rewrite length_fmap, (Forall2_length _ _ _ Hnames).
Qed.

(** C6.  On a well-formed machine, [removeSubscriber(v)] for a handle [v]
    that is in no slot returns normally and leaves the subscriber sequence,
    and everything else a client can observe, as it was; whatever calls
    follow, they end alike, with the same output, the same [update] calls
    and the same completion, as without the removal. *)
Theorem removeSubscriber_absent v m :
  wf m -> v ∉ current m ->
  step objects (CallRemove v) m = (removeSubscriber v m, Normal)
  /\ current (removeSubscriber v m) = current m
  /\ view (removeSubscriber v m) = view m
  /\ (forall script,
        view (run objects script (removeSubscriber v m)).1
        = view (run objects script m).1
        /\ (run objects script (removeSubscriber v m)).2
           = (run objects script m).2).
Proof.
  intros Hm Hv.
  assert (current (removeSubscriber v m) = current m) as Hcur
    by (by rewrite current_removeSubscriber, filter_ne_absent).
  assert (view (removeSubscriber v m) = view m) as Hview
    by (unfold view; by rewrite Hcur).
  split_and!; [done..|]. intros script.
  destruct (alike_run script (removeSubscriber v m) m) as [(_ & _ & ?) ?];
    [|done].
  split_and!; [apply wf_removeSubscriber|done..].
Qed.

(** C7.  On a channel without subscribers [videoUpload] prints its one line
    and does nothing else: no [update] call, no exception.
    [addSubscriber] and [removeSubscriber] never throw, and no call of a
    script throws, as long as every handle passed to the channel, by the
    script or by an [update] method, is an object. *)
Theorem videoUpload_without_subscribers :
  (forall title m,
     current m = [] ->
     videoUpload objects title m
     = (console_log (uploaded (name (this m)) title) m, Normal))
  /\ (forall channelName title,
        videoUpload objects title (new_YoutubeChannel channelName)
        = ({| this := {| subscriber := 0; name := channelName |};
              arrays := [[]];
              console := [uploaded channelName title];
              invoked := [] |}, Normal))
  /\ (forall v m,
        (step objects (CallAdd v) m).2 = Normal
        /\ (step objects (CallRemove v) m).2 = Normal)
  /\ (objects_typed objects ->
      forall channelName script,
        Forall call_typed script ->
        (run objects script (new_YoutubeChannel channelName)).2 = Normal).
Proof.
  split_and!.
  - intros title m Hcur. by rewrite videoUpload_visit, Hcur.
  - done.
  - done.
  - intros Hobj channelName script Hs.
    by apply typed_run; [..|apply wf_new_YoutubeChannel|].
Qed.

(** C8.  Starting from a new channel, after any script of [addSubscriber],
    [removeSubscriber] and [videoUpload] calls in which every handle passed
    to the channel is an object, no slot of the subscriber array is [null]
    or [undefined]. *)
Theorem subscriber_array_has_no_null channelName script :
  objects_typed objects ->
  Forall call_typed script ->
  Forall is_obj
    (current (run objects script (new_YoutubeChannel channelName)).1).
Proof.
  intros Hobj Hs.
  by apply typed_run; [..|apply wf_new_YoutubeChannel|].
Qed.

(** *** What a broadcast changes *)

Lemma store_exec_cmd c m1 m2 :
  store m1 = store m2 -> store (exec_cmd c m1) = store (exec_cmd c m2).
Proof.
  intros [= Ht Ha]. unfold store.
  destruct c as [line|v|v]; simpl; unfold current, deref;
    by rewrite ?Ht, ?Ha.
Qed.

Lemma store_exec body m1 m2 :
  store m1 = store m2 -> store (exec body m1) = store (exec body m2).
Proof.
  revert m1 m2; induction body as [|c body IH]; intros m1 m2 H; simpl; [done|].
  by apply IH, store_exec_cmd.
Qed.

Lemma visit_store title vs m :
  Forall is_obj vs ->
  store (visit objects title vs m).1
  = store (exec (callbacks objects title vs) m).
Proof.
  intros Hvs; revert m.
  induction Hvs as [|v vs Hv Hvs IH]; intros m; [done|].
  destruct v as [| |r]; try done.
  change (callbacks objects title (VObj r :: vs))
    with (update (objects r) title ++ callbacks objects title vs).
  rewrite exec_app. simpl. rewrite IH. by apply store_exec, store_exec.
Qed.

(** C9, as amended.  [videoUpload] never changes the channel's name.  When
    no [update] method of a subscriber in the array calls back into the
    channel, as is the case for [UserSubscriber], it leaves the field
    [subscriber], the store of arrays and so the subscriber sequence as
    they were.  In general the channel after the broadcast is the channel
    that the [addSubscriber] and [removeSubscriber] calls of the [update]
    bodies, run in array order, make of the channel before it. *)
Theorem videoUpload_frame title m :
  name (this (videoUpload objects title m).1) = name (this m)
  /\ (Forall (passive objects) (current m) ->
      this (videoUpload objects title m).1 = this m
      /\ arrays (videoUpload objects title m).1 = arrays m
      /\ current (videoUpload objects title m).1 = current m)
  /\ (Forall is_obj (current m) ->
      store (videoUpload objects title m).1
      = store (exec (callbacks objects title (current m)) m)).
Proof.
  rewrite videoUpload_visit. split_and!.
  - by rewrite visit_name.
  - intros Hp.
    destruct (visit_passive title (current m)
                (console_log (uploaded (name (this m)) title) m) Hp)
      as [Ht Ha].
    simpl in Ht, Ha. split_and!; [done..|].
    revert Ht Ha. generalize (visit objects title (current m)
      (console_log (uploaded (name (this m)) title) m)).1.
    intros m' Ht Ha. unfold current, deref. by rewrite Ht, Ha.
  - intros Hcur. rewrite visit_store by done. by apply store_exec.
Qed.

(** C10.  The [update] calls of one [videoUpload] are the slots of the
    subscriber array as it stood when [videoUpload] was called, in order,
    whatever the [update] methods do to the channel while the broadcast
    runs: a handle that was in no slot at the call gets no [update] call,
    also when an [update] method adds it, and a handle that was in a slot
    gets one call per occurrence, also when an [update] method removes
    it. *)
Theorem videoUpload_walks_snapshot title m :
  Forall is_obj (current m) ->
  calls_since m (videoUpload objects title m).1
  = (fun v => (v, title)) <$> current m
  /\ (forall v arg,
        v ∉ current m ->
        (v, arg) ∉ calls_since m (videoUpload objects title m).1)
  /\ (forall v,
        occurrences (v, title)
          (calls_since m (videoUpload objects title m).1)
        = occurrences v (current m)).
Proof.
  intros Hcur.
  destruct (videoUpload_objects title m Hcur) as (_ & _ & ->).
  split_and!; [done| |].
  - intros v arg Hv (w & [= <- _] & Hw)%list_elem_of_fmap. done.
  - intros v. apply occurrences_tagged.
Qed.

End Broadcast.

(** ** The demonstration script, and the contract at concrete channels *)

(** Lines 49 to 63 of [observer.ts]: three subscribers, a broadcast, the
    second one unsubscribed, a second broadcast. *)
Example demo_script :
  run demo_objects
    [CallAdd (VObj 0); CallAdd (VObj 1); CallAdd (VObj 2);
     CallUpload "ReactJs"; CallRemove (VObj 1); CallUpload "Angular"]
    (new_YoutubeChannel "codeWithMe")
  = ({| this := {| subscriber := 1; name := "codeWithMe" |};
        arrays := [[VObj 0; VObj 1; VObj 2]; [VObj 0; VObj 2]];
        console :=
          [uploaded "codeWithMe" "ReactJs";
           notified "A" "ReactJs"; notified "B" "ReactJs";
           notified "C" "ReactJs";
           uploaded "codeWithMe" "Angular";
           notified "A" "Angular"; notified "C" "Angular"];
        invoked :=
          [(VObj 0, "ReactJs"); (VObj 1, "ReactJs"); (VObj 2, "ReactJs");
           (VObj 0, "Angular"); (VObj 2, "Angular")] |}, Normal).
Proof. vm_compute. reflexivity. Qed.

(** A slot holding [null] makes the broadcast throw at that slot. *)
Example null_slot_throws :
  (videoUpload demo_objects "ReactJs"
     (addSubscriber (VObj 1) (addSubscriber VNull demo_channel))).2 = TypeError
  /\ calls_since demo_channel
       (videoUpload demo_objects "ReactJs"
          (addSubscriber (VObj 1) (addSubscriber VNull demo_channel))).1
     = [(VObj 0, "ReactJs"); (VObj 1, "ReactJs"); (VObj 2, "ReactJs")].
Proof. split; vm_compute; reflexivity. Qed.

Lemma videoUpload_invokes_every_entry_witness :
  Forall is_obj (current demo_channel)
  /\ (videoUpload demo_objects "ReactJs" demo_channel).2 = Normal
  /\ calls_since demo_channel
       (videoUpload demo_objects "ReactJs" demo_channel).1
     = [(VObj 0, "ReactJs"); (VObj 1, "ReactJs"); (VObj 2, "ReactJs")].
Proof.
  assert (Forall is_obj (current demo_channel)) as H by compute_done.
  split; [exact H|].
  split; apply (videoUpload_invokes_every_entry demo_objects "ReactJs"
                  demo_channel H).
Defined.

Lemma removeSubscriber_removes_all_witness :
  current twice_channel = [VObj 0; VObj 1; VObj 0]
  /\ current (removeSubscriber (VObj 0) twice_channel) = [VObj 1]
  /\ occurrences (VObj 1) (current (removeSubscriber (VObj 0) twice_channel))
     = occurrences (VObj 1) (current twice_channel).
Proof.
  split; [reflexivity|].
  split.
  - apply (removeSubscriber_removes_all (VObj 0) twice_channel).
  - apply (removeSubscriber_removes_all (VObj 0) twice_channel). discriminate.
Defined.

Lemma removed_subscriber_not_invoked_witness :
  occurrences (VObj 0) (current twice_channel) = 2
  /\ (VObj 0, "ReactJs")
     ∉ calls_since (removeSubscriber (VObj 0) twice_channel)
         (videoUpload demo_objects "ReactJs"
            (removeSubscriber (VObj 0) twice_channel)).1.
Proof.
  split; [reflexivity|].
  apply (removed_subscriber_not_invoked demo_objects (VObj 0) "ReactJs"
           twice_channel "ReactJs").
Defined.

Lemma addSubscriber_appends_witness :
  wf demo_channel
  /\ current (addSubscriber (VObj 0) demo_channel)
     = [VObj 0; VObj 1; VObj 2; VObj 0]
  /\ occurrences (VObj 0, "ReactJs")
       (calls_since (Nat.iter 2 (addSubscriber (VObj 0)) demo_channel)
          (videoUpload demo_objects "ReactJs"
             (Nat.iter 2 (addSubscriber (VObj 0)) demo_channel)).1)
     = 3.
Proof.
  assert (wf demo_channel) as H by (vm_compute; lia).
  split; [exact H|].
  split.
  - apply (addSubscriber_appends demo_objects (VObj 0) demo_channel H).
  - apply (addSubscriber_appends demo_objects (VObj 0) demo_channel H
             : _ /\ _ /\ _ /\ _); [compute_done|exact I].
Defined.

(** C5, as the specification words it, fails on the script's own first
    broadcast: the lines on the console are not the specification's. *)
Lemma spec_output_differs :
  lines_since demo_channel
    (videoUpload demo_objects "ReactJs" demo_channel).1
  ≠ spec_output "codeWithMe" "ReactJs" ["A"; "B"; "C"].
Proof. compute_done. Defined.

Lemma videoUpload_prints_witness :
  Forall2 (user_named demo_objects) (current demo_channel) ["A"; "B"; "C"]
  /\ lines_since demo_channel
       (videoUpload demo_objects "ReactJs" demo_channel).1
     = [uploaded "codeWithMe" "ReactJs"; notified "A" "ReactJs";
        notified "B" "ReactJs"; notified "C" "ReactJs"].
Proof.
  assert (Forall2 (user_named demo_objects) (current demo_channel)
            ["A"; "B"; "C"]) as H.
  { change (current demo_channel) with [VObj 0; VObj 1; VObj 2].
    repeat constructor; eexists; split; reflexivity. }
  split; [exact H|].
  apply (videoUpload_prints demo_objects "ReactJs" demo_channel
           ["A"; "B"; "C"] H).
Defined.

Lemma removeSubscriber_absent_witness :
  wf demo_channel
  /\ (VObj 7 ∉ current demo_channel)
  /\ current (removeSubscriber (VObj 7) demo_channel) = current demo_channel
  /\ view (run reentrant_objects [CallAdd (VObj 1); CallUpload "ReactJs"]
             (removeSubscriber (VObj 7) demo_channel)).1
     = view (run reentrant_objects [CallAdd (VObj 1); CallUpload "ReactJs"]
               demo_channel).1.
Proof.
  assert (wf demo_channel) as Hwf by (vm_compute; lia).
  assert (VObj 7 ∉ current demo_channel) as Habs by compute_done.
  split; [exact Hwf|]. split; [exact Habs|].
  split.
  - apply (removeSubscriber_absent reentrant_objects (VObj 7) demo_channel
             Hwf Habs).
  - apply (removeSubscriber_absent reentrant_objects (VObj 7) demo_channel
             Hwf Habs).
Defined.

Lemma videoUpload_without_subscribers_witness :
  objects_typed reentrant_objects
  /\ Forall call_typed
       [CallAdd (VObj 0); CallAdd (VObj 1); CallUpload "ReactJs";
        CallRemove (VObj 1); CallUpload "Angular"]
  /\ (run reentrant_objects
        [CallAdd (VObj 0); CallAdd (VObj 1); CallUpload "ReactJs";
         CallRemove (VObj 1); CallUpload "Angular"]
        (new_YoutubeChannel "codeWithMe")).2 = Normal
  /\ videoUpload reentrant_objects "X" (new_YoutubeChannel "codeWithMe")
     = (console_log (uploaded "codeWithMe" "X")
          (new_YoutubeChannel "codeWithMe"), Normal).
Proof.
  assert (objects_typed reentrant_objects) as Hobj
    by (intros r title; by_cases_on_ref r).
  assert (Forall call_typed
            [CallAdd (VObj 0); CallAdd (VObj 1); CallUpload "ReactJs";
             CallRemove (VObj 1); CallUpload "Angular"]) as Hs
    by (repeat constructor).
  split; [exact Hobj|]. split; [exact Hs|].
  split.
  - apply (videoUpload_without_subscribers reentrant_objects); assumption.
  - apply (proj1 (videoUpload_without_subscribers reentrant_objects)).
    reflexivity.
Defined.

Lemma subscriber_array_has_no_null_witness :
  objects_typed reentrant_objects
  /\ Forall call_typed
       [CallAdd (VObj 0); CallAdd (VObj 1); CallAdd (VObj 2);
        CallUpload "ReactJs"]
  /\ Forall is_obj
       (current (run reentrant_objects
                   [CallAdd (VObj 0); CallAdd (VObj 1); CallAdd (VObj 2);
                    CallUpload "ReactJs"]
                   (new_YoutubeChannel "codeWithMe")).1).
Proof.
  assert (objects_typed reentrant_objects) as Hobj
    by (intros r title; by_cases_on_ref r).
  assert (Forall call_typed
            [CallAdd (VObj 0); CallAdd (VObj 1); CallAdd (VObj 2);
             CallUpload "ReactJs"]) as Hs
    by (repeat constructor).
  split; [exact Hobj|]. split; [exact Hs|].
  apply (subscriber_array_has_no_null reentrant_objects "codeWithMe" _
           Hobj Hs).
Defined.

(** C9, as the specification words it, fails when an [update] method calls
    back: on the channel of the script, with a second subscriber that
    subscribes a fourth object and unsubscribes the third, the sequence
    after the broadcast is not the sequence before it. *)
Lemma reentrant_update_changes_sequence :
  current demo_channel = [VObj 0; VObj 1; VObj 2]
  /\ current (videoUpload reentrant_objects "ReactJs" demo_channel).1
     = [VObj 0; VObj 1; VObj 3]
  /\ current (videoUpload reentrant_objects "ReactJs" demo_channel).1
     ≠ current demo_channel.
Proof. split_and!; [reflexivity..|compute_done]. Defined.

Lemma videoUpload_frame_witness :
  Forall (passive demo_objects) (current demo_channel)
  /\ Forall is_obj (current demo_channel)
  /\ current (videoUpload demo_objects "ReactJs" demo_channel).1
     = current demo_channel
  /\ store (videoUpload reentrant_objects "ReactJs" demo_channel).1
     = store (exec [Log (notified "A" "ReactJs"); AddSubscriber (VObj 3);
                    RemoveSubscriber (VObj 2); Log (notified "C" "ReactJs")]
                demo_channel).
Proof.
  assert (Forall (passive demo_objects) (current demo_channel)) as Hp.
  { change (current demo_channel) with [VObj 0; VObj 1; VObj 2].
    repeat constructor. }
  assert (Forall is_obj (current demo_channel)) as Ho by compute_done.
  split; [exact Hp|]. split; [exact Ho|].
  split.
  - apply (videoUpload_frame demo_objects "ReactJs" demo_channel). exact Hp.
  - apply (videoUpload_frame reentrant_objects "ReactJs" demo_channel
             : _ /\ _ /\ _). exact Ho.
Defined.

Lemma videoUpload_walks_snapshot_witness :
  Forall is_obj (current demo_channel)
  /\ calls_since demo_channel
       (videoUpload reentrant_objects "ReactJs" demo_channel).1
     = [(VObj 0, "ReactJs"); (VObj 1, "ReactJs"); (VObj 2, "ReactJs")]
  /\ ((VObj 3, "ReactJs")
      ∉ calls_since demo_channel
          (videoUpload reentrant_objects "ReactJs" demo_channel).1)
  /\ current (videoUpload reentrant_objects "ReactJs" demo_channel).1
     = [VObj 0; VObj 1; VObj 3].
Proof.
  assert (Forall is_obj (current demo_channel)) as Ho by compute_done.
  split; [exact Ho|].
  split; [|split; [|reflexivity]].
  - apply (videoUpload_walks_snapshot reentrant_objects "ReactJs"
             demo_channel Ho).
  - apply (videoUpload_walks_snapshot reentrant_objects "ReactJs"
             demo_channel Ho). compute_done.
Defined.

(** ** More of the channel's behaviour *)

Section Composition.

Variable objects : Ref -> Subscriber.

Implicit Types (m : Machine) (v : value) (O : Ref) (a vs : list value).

Lemma visit_app title vs1 vs2 m :
  (visit objects title vs1 m).2 = Normal ->
  visit objects title (vs1 ++ vs2) m
  = visit objects title vs2 (visit objects title vs1 m).1.
Proof.
  revert m; induction vs1 as [|v vs1 IH]; intros m; simpl; [done|].
  destruct (call_update objects v title m) as [m' []]; [apply IH|done].
Qed.

Lemma console_exec body m : console m `prefix_of` console (exec body m).
Proof.
  revert m; induction body as [|c body IH]; intros m; simpl; [done|].
  etrans; [|apply IH]. destruct c; simpl; [by apply prefix_app_r|done..].
Qed.

Lemma console_visit title vs m :
  console m `prefix_of` console (visit objects title vs m).1.
Proof.
  revert m; induction vs as [|v vs IH]; intros m; simpl; [done|].
  destruct v as [| |r]; simpl; try done.
  etrans; [|apply IH]. apply (console_exec _ (record_call (VObj r) title m)).
Qed.


(** When slot [v] of the subscriber array is the first one that holds no
    object, [videoUpload] prints its line, calls [update] on the slots
    before [v], in order, and then throws; no slot after [v] is reached. *)
Theorem videoUpload_throws_at_first_non_object title m pre v post :
  current m = pre ++ v :: post ->
  Forall is_obj pre ->
  ~ is_obj v ->
  (videoUpload objects title m).2 = TypeError
  /\ calls_since m (videoUpload objects title m).1
     = (fun v => (v, title)) <$> pre
  /\ (exists rest,
        lines_since m (videoUpload objects title m).1
        = uploaded (name (this m)) title :: rest).
Proof.
  intros Hcur Hpre Hv. rewrite videoUpload_visit, Hcur.
  set (m1 := console_log (uploaded (name (this m)) title) m).
  destruct (visit_objects objects title pre m1 Hpre) as [Hn Hinv].
  rewrite (visit_app _ _ _ _ Hn).
  assert (visit objects title (v :: post) (visit objects title pre m1).1
          = ((visit objects title pre m1).1, TypeError)) as ->
    by (by destruct v).
  split_and!; [done|by apply (calls_since_app m)|].
  destruct (console_visit title pre m1) as [rest Hrest].
  exists rest. unfold lines_since. simpl. rewrite Hrest. simpl.
  by rewrite <- app_assoc, drop_app_length.
Qed.

(** Removing the same handle a second time changes nothing a client can
    observe. *)
Theorem removeSubscriber_idempotent v m :
  view (removeSubscriber v (removeSubscriber v m))
  = view (removeSubscriber v m).
Proof.
  unfold view. rewrite (current_removeSubscriber v (removeSubscriber v m)).
  rewrite filter_ne_absent; [done|].
  rewrite current_removeSubscriber. by intros [Hne _]%list_elem_of_filter.
Qed.

(** Two removals can be done in either order. *)
Theorem removeSubscriber_comm v w m :
  view (removeSubscriber v (removeSubscriber w m))
  = view (removeSubscriber w (removeSubscriber v m)).
Proof.
  unfold view. rewrite !current_removeSubscriber, !list_filter_filter.
  simpl. f_equal. f_equal. f_equal.
  apply list_filter_iff. intros x. tauto.
Qed.

(** Unsubscribing and subscribing again leaves exactly one occurrence of
    the handle, in the last slot; the other slots keep their order. *)
Theorem resubscribe_moves_to_end v m :
  current (addSubscriber v (removeSubscriber v m))
  = filter (fun sub => sub ≠ v) (current m) ++ [v]
  /\ occurrences v (current (addSubscriber v (removeSubscriber v m))) = 1.
Proof.
  rewrite current_addSubscriber by apply wf_removeSubscriber.
  rewrite current_removeSubscriber. split; [done|].
  rewrite occurrences_app, occurrences_zero.
  - unfold occurrences. by rewrite filter_cons_True.
  - by intros [Hne _]%list_elem_of_filter.
Qed.

(** Subscribing a handle that was in no slot and unsubscribing it again
    gives back what a client could observe before. *)
Theorem unsubscribe_undoes_subscribe v m :
  wf m -> v ∉ current m ->
  view (removeSubscriber v (addSubscriber v m)) = view m.
Proof.
  intros Hm Hv. unfold view.
  rewrite current_removeSubscriber, current_addSubscriber by done.
  rewrite filter_app, filter_ne_absent by done.
  rewrite filter_cons_False by auto. simpl. by rewrite app_nil_r.
Qed.

Lemma length_filter_ne (v : value) (l : list value) :
  length (filter (fun sub => sub ≠ v) l) + occurrences v l = length l.
Proof.
  unfold occurrences. induction l as [|x l IH]; [done|].
  destruct (decide (x = v)) as [->|Hx].
  - rewrite filter_cons_False by auto.
    rewrite (filter_cons_True (fun y => y = v)) by done. simpl. lia.
  - rewrite filter_cons_True by done.
    rewrite (filter_cons_False (fun y => y = v)) by done. simpl. lia.
Qed.

(** [removeSubscriber(v)] shortens the subscriber sequence by the number of
    slots that held [v], and [addSubscriber] lengthens it by one. *)
Theorem subscriber_count v m :
  length (current (removeSubscriber v m)) + occurrences v (current m)
  = length (current m)
  /\ (wf m -> length (current (addSubscriber v m)) = S (length (current m))).
Proof.
  split.
  - rewrite current_removeSubscriber. apply length_filter_ne.
  - intros Hm. rewrite current_addSubscriber, length_app by done. simpl. lia.
Qed.

Lemma holds_visit O a title vs m :
  holds O a m -> holds O a (visit objects title vs m).1.
Proof.
  revert m; induction vs as [|v vs IH]; intros m Hm; simpl; [done|].
  destruct v as [| |r]; simpl; try done.
  by apply IH, holds_exec.
Qed.

Lemma holds_run O a script m :
  holds O a m -> holds O a (run objects script m).1.
Proof.
  revert m; induction script as [|c script IH]; intros m Hm; simpl; [done|].
  assert (holds O a (step objects c m).1) as Hs.
  { destruct c as [v|v|title]; simpl.
    - by apply holds_addSubscriber.
    - by apply holds_removeSubscriber.
    - rewrite videoUpload_visit. by apply holds_visit. }
  destruct (step objects c m) as [m' []]; simpl in *; auto.
Qed.

(** No call ever takes a slot out of an array object or overwrites one:
    whatever a script does, an array object of the store still starts with
    the slots it had, at the same address.  Unsubscribing builds a new
    array instead. *)
Theorem array_objects_only_grow script m O a :
  arrays m !! O = Some a ->
  exists ext, arrays (run objects script m).1 !! O = Some (a ++ ext).
Proof.
  intros Ha. apply (holds_run O a script m). exists []. by rewrite app_nil_r.
Qed.

Lemma name_step c m : name (this (step objects c m).1) = name (this m).
Proof.
  destruct c as [v|v|title]; simpl; [done..|].
  by rewrite videoUpload_visit, visit_name.
Qed.

(** The channel's name is fixed at construction: no script changes it. *)
Theorem run_keeps_name script m :
  name (this (run objects script m).1) = name (this m).
Proof.
  revert m; induction script as [|c script IH]; intros m; simpl; [done|].
  pose proof (name_step c m) as Hs.
  destruct (step objects c m) as [m' []]; simpl in *; [|done].
  by rewrite IH.
Qed.



Lemma wf_subscribe_all vs m : wf m -> wf (subscribe_all vs m).
Proof.
  revert m; induction vs as [|v vs IH]; intros m Hm; simpl; [done|].
  by apply IH, wf_addSubscriber.
Qed.

Lemma current_subscribe_all vs m :
  wf m -> current (subscribe_all vs m) = current m ++ vs.
Proof.
  revert m; induction vs as [|v vs IH]; intros m Hm; simpl.
  - by rewrite app_nil_r.
  - rewrite IH by by apply wf_addSubscriber.
    rewrite current_addSubscriber by done. by rewrite <- app_assoc.
Qed.

Lemma invoked_subscribe_all vs m :
  invoked (subscribe_all vs m) = invoked m.
Proof.
  revert m; induction vs as [|v vs IH]; intros m; simpl; [done|].
  by rewrite IH.
Qed.

(** Subscribers are served in the order they subscribed: on a new channel,
    after [addSubscriber] for each object of [vs] in turn, [videoUpload]
    returns normally and has called [update] on exactly [vs], first to
    last. *)
Theorem broadcast_in_subscription_order channelName vs title :
  Forall is_obj vs ->
  (videoUpload objects title
     (subscribe_all vs (new_YoutubeChannel channelName))).2 = Normal
  /\ invoked (videoUpload objects title
                (subscribe_all vs (new_YoutubeChannel channelName))).1
     = (fun v => (v, title)) <$> vs.
Proof.
  intros Hvs.
  assert (current (subscribe_all vs (new_YoutubeChannel channelName)) = vs)
    as Hcur by (by rewrite current_subscribe_all
                  by apply wf_new_YoutubeChannel).
  destruct (videoUpload_objects objects title
              (subscribe_all vs (new_YoutubeChannel channelName)))
    as (Hn & Hinv & _); [by rewrite Hcur|].
  split; [done|]. by rewrite Hinv, Hcur, invoked_subscribe_all.
Qed.

Lemma current_store m1 m2 : store m1 = store m2 -> current m1 = current m2.
Proof. intros [= Ht Ha]. unfold current, deref. by rewrite Ht, Ha. Qed.

(** What the [update] methods do to the channel during a broadcast holds
    for the next one: after [videoUpload] the subscriber sequence is the
    one that the bodies' own [addSubscriber] and [removeSubscriber] calls
    leave, and the next [videoUpload] calls [update] on exactly that
    sequence. *)
Theorem callbacks_take_effect_next_broadcast title1 title2 m :
  objects_typed objects -> wf m -> Forall is_obj (current m) ->
  current (videoUpload objects title1 m).1
  = current (exec (callbacks objects title1 (current m)) m)
  /\ calls_since (videoUpload objects title1 m).1
       (videoUpload objects title2 (videoUpload objects title1 m).1).1
     = (fun v => (v, title2))
       <$> current (exec (callbacks objects title1 (current m)) m).
Proof.
  intros Hobj Hm Hcur.
  assert (current (videoUpload objects title1 m).1
          = current (exec (callbacks objects title1 (current m)) m)) as Heq.
  { apply current_store. rewrite videoUpload_visit, visit_store by done.
    by apply store_exec. }
  split; [done|]. rewrite <- Heq.
  apply videoUpload_objects.
  rewrite videoUpload_visit. by apply typed_visit.
Qed.

End Composition.

Lemma videoUpload_throws_at_first_non_object_witness :
  current (addSubscriber (VObj 1) (addSubscriber VNull demo_channel))
  = [VObj 0; VObj 1; VObj 2] ++ VNull :: [VObj 1]
  /\ Forall is_obj [VObj 0; VObj 1; VObj 2]
  /\ ~ is_obj VNull
  /\ (videoUpload demo_objects "ReactJs"
        (addSubscriber (VObj 1) (addSubscriber VNull demo_channel))).2
     = TypeError.
Proof.
  assert (Forall is_obj [VObj 0; VObj 1; VObj 2]) as Hpre by compute_done.
  assert (~ is_obj VNull) as Hv by (intros []).
  split; [reflexivity|]. split; [exact Hpre|]. split; [exact Hv|].
  apply (videoUpload_throws_at_first_non_object demo_objects "ReactJs"
           (addSubscriber (VObj 1) (addSubscriber VNull demo_channel))
           [VObj 0; VObj 1; VObj 2] VNull [VObj 1] eq_refl Hpre Hv).
Defined.

Lemma unsubscribe_undoes_subscribe_witness :
  wf demo_channel
  /\ (VObj 7 ∉ current demo_channel)
  /\ view (removeSubscriber (VObj 7) (addSubscriber (VObj 7) demo_channel))
     = view demo_channel.
Proof.
  assert (wf demo_channel) as Hwf by (vm_compute; lia).
  assert (VObj 7 ∉ current demo_channel) as Habs by compute_done.
  split; [exact Hwf|]. split; [exact Habs|].
  apply (unsubscribe_undoes_subscribe (VObj 7) demo_channel Hwf Habs).
Defined.

Lemma subscriber_count_witness :
  wf twice_channel
  /\ length (current (removeSubscriber (VObj 0) twice_channel)) + 2 = 3
  /\ length (current (addSubscriber (VObj 0) twice_channel)) = 4.
Proof.
  assert (wf twice_channel) as Hwf by (vm_compute; lia).
  split; [exact Hwf|]. split.
  - apply (proj1 (subscriber_count (VObj 0) twice_channel)).
  - apply (proj2 (subscriber_count (VObj 0) twice_channel) Hwf).
Defined.

Lemma array_objects_only_grow_witness :
  arrays demo_channel !! 0 = Some [VObj 0; VObj 1; VObj 2]
  /\ arrays (run reentrant_objects [CallUpload "ReactJs"] demo_channel).1
       !! 0
     = Some ([VObj 0; VObj 1; VObj 2] ++ [VObj 3])
  /\ (exists ext,
        arrays (run reentrant_objects [CallUpload "ReactJs"] demo_channel).1
          !! 0
        = Some ([VObj 0; VObj 1; VObj 2] ++ ext)).
Proof.
  split; [reflexivity|]. split; [reflexivity|].
  apply (array_objects_only_grow reentrant_objects [CallUpload "ReactJs"]
           demo_channel 0 [VObj 0; VObj 1; VObj 2] eq_refl).
Defined.

Lemma broadcast_in_subscription_order_witness :
  Forall is_obj [VObj 2; VObj 0; VObj 2]
  /\ invoked (videoUpload demo_objects "ReactJs"
                (subscribe_all [VObj 2; VObj 0; VObj 2]
                   (new_YoutubeChannel "codeWithMe"))).1
     = [(VObj 2, "ReactJs"); (VObj 0, "ReactJs"); (VObj 2, "ReactJs")].
Proof.
  assert (Forall is_obj [VObj 2; VObj 0; VObj 2]) as Hvs by compute_done.
  split; [exact Hvs|].
  apply (broadcast_in_subscription_order demo_objects "codeWithMe"
           [VObj 2; VObj 0; VObj 2] "ReactJs" Hvs).
Defined.

Lemma callbacks_take_effect_next_broadcast_witness :
  objects_typed reentrant_objects
  /\ wf demo_channel
  /\ Forall is_obj (current demo_channel)
  /\ calls_since (videoUpload reentrant_objects "ReactJs" demo_channel).1
       (videoUpload reentrant_objects "Angular"
          (videoUpload reentrant_objects "ReactJs" demo_channel).1).1
     = [(VObj 0, "Angular"); (VObj 1, "Angular"); (VObj 3, "Angular")].
Proof.
  assert (objects_typed reentrant_objects) as Hobj
    by (intros r title; by_cases_on_ref r).
  assert (wf demo_channel) as Hwf by (vm_compute; lia).
  assert (Forall is_obj (current demo_channel)) as Ho by compute_done.
  split; [exact Hobj|]. split; [exact Hwf|]. split; [exact Ho|].
  apply (callbacks_take_effect_next_broadcast reentrant_objects
           "ReactJs" "Angular" demo_channel Hobj Hwf Ho).
Defined.

End Observer.

(** ** Adapter *)

Module AdapterFacts.

Import Adapter.

(** The constructor of [MediaAdapter] throws [Unsupported format] for every
    audio type other than [vlc] and [mp4], and for those two it returns an
    adapter. *)
Theorem new_MediaAdapter_throws audioType :
  (new_MediaAdapter audioType = Thrown "Unsupported format"
   <-> audioType ≠ "vlc" /\ audioType ≠ "mp4")
  /\ ((exists adapter, new_MediaAdapter audioType = Returned adapter)
      <-> audioType = "vlc" \/ audioType = "mp4").
Proof.
  unfold new_MediaAdapter.
  repeat case_decide; subst; (split; split);
    try done; try (intros [? ?]; done); try (intros [?|?]; done); eauto.
Qed.

(** [AudioPlayer.play] never throws and prints exactly one line, whatever
    its arguments: for [mp3], [mp4] and [vlc] the line names the audio type
    and the file, for every other audio type it is the complaint about the
    format.  The constructor's exception cannot be reached through it. *)
Theorem AudioPlayer_play_prints_one_line audioType fileName :
  AudioPlayer_play audioType fileName
  = Returned
      [if decide (audioType ∈ ["mp3"; "mp4"; "vlc"])
       then playing audioType fileName
       else invalid_format].
Proof.
  unfold AudioPlayer_play, new_MediaAdapter, MediaAdapter_play.
  destruct (decide (audioType = "mp3")) as [->|Hmp3]; [done|].
  destruct (decide (audioType = "vlc")) as [->|Hvlc]; [done|].
  destruct (decide (audioType = "mp4")) as [->|Hmp4]; [done|].
  rewrite decide_False by (by intros [?|?]).
  rewrite decide_False; [done|].
  intros H. repeat (apply elem_of_cons in H as [H|H]; [done|]).
  by apply elem_of_nil in H.
Qed.

(** An adapter plays only the format it was built for: asked for any other
    audio type, [MediaAdapter.play] prints nothing and does not complain. *)
Theorem MediaAdapter_play_own_format built adapter audioType fileName :
  new_MediaAdapter built = Returned adapter ->
  MediaAdapter_play adapter audioType fileName
  = if decide (audioType = built) then [playing built fileName] else [].
Proof.
  unfold new_MediaAdapter, MediaAdapter_play.
  destruct (decide (built = "vlc")) as [->|Hvlc].
  { intros [= <-]; simpl.
    destruct (decide (audioType = "vlc")) as [->|?]; [done|].
    by destruct (decide (audioType = "mp4")). }
  destruct (decide (built = "mp4")) as [->|Hmp4]; [|done].
  intros [= <-]; simpl.
  destruct (decide (audioType = "vlc")) as [->|?]; [done|].
  by destruct (decide (audioType = "mp4")) as [->|?].
Qed.

Lemma MediaAdapter_play_own_format_witness :
  new_MediaAdapter "vlc" = Returned {| advancedPlayer := VlcPlayer |}
  /\ MediaAdapter_play {| advancedPlayer := VlcPlayer |} "mp4" "video.mp4"
     = []
  /\ MediaAdapter_play {| advancedPlayer := VlcPlayer |} "vlc" "movie.vlc"
     = ["Playing vlc file: movie.vlc"].
Proof.
  split; [reflexivity|]. split.
  - apply (MediaAdapter_play_own_format "vlc" _ "mp4" "video.mp4" eq_refl).
  - apply (MediaAdapter_play_own_format "vlc" _ "vlc" "movie.vlc" eq_refl).
Defined.

End AdapterFacts.

(** ** Facade *)

Module FacadeFacts.

Import Facade.

(** [placeOrder] always goes through: for every product and user it runs
    the stock check, the payment of 499, the invoice and the email, in that
    order, and ends with the success line; neither of its two failure lines
    is ever printed. *)
Theorem placeOrder_always_succeeds productId userId :
  placeOrder productId userId
  = [starting;
     "✅ Checking stock for product: " +:+ productId;
     "💰 Processing payment of ₹499 for user: " +:+ userId;
     "🧾 Invoice generated for " +:+ productId +:+ " and user " +:+ userId;
     "📧 Email sent to user " +:+ userId +:+ ": Order Confirmed!";
     placed]
  /\ (out_of_stock ∉ placeOrder productId userId)
  /\ (payment_failed ∉ placeOrder productId userId).
Proof.
  split; [reflexivity|].
  split; intros H;
    repeat (apply elem_of_cons in H as [H|H]; [by cbv in H|]);
    by apply elem_of_nil in H.
Qed.

End FacadeFacts.

(** ** Decorator *)

Module DecoratorFacts.

Import Decorator.

Local Open Scope Z_scope.

(** The price of a coffee is 50, plus 10 for every [MilkDecorator] and 5 for
    every [SugarDecorator] around it, in whatever order they were put on; a
    plain [CoffeeDecorator] adds nothing. *)
Theorem cost_counts_decorators c :
  cost c = 50 + 10 * Z.of_nat (milks c) + 5 * Z.of_nat (sugars c).
Proof. induction c; simpl; lia. Qed.

Lemma length_app_string (s1 s2 : string) :
  String.length (s1 +:+ s2) = (String.length s1 + String.length s2)%nat.
Proof. induction s1 as [|a s1 IH]; simpl; [done|]. by rewrite IH. Qed.

Lemma app_string_assoc (s1 s2 s3 : string) :
  (s1 +:+ s2) +:+ s3 = s1 +:+ s2 +:+ s3.
Proof.
  induction s1 as [|a s1 IH]; [done|].
  change (String a ((s1 +:+ s2) +:+ s3) = String a (s1 +:+ s2 +:+ s3)).
  by rewrite IH.
Qed.

(** Every description starts with [Simple coffee]; what follows is 6
    characters long for every [MilkDecorator] and 7 for every
    [SugarDecorator]. *)
Theorem description_shape c :
  exists toppings,
    description c = "Simple coffee" +:+ toppings
    /\ String.length toppings = (6 * milks c + 7 * sugars c)%nat.
Proof.
  induction c as [|c (t & Ht & Hlen)|c (t & Ht & Hlen)|c (t & Ht & Hlen)];
    simpl.
  - by exists EmptyString.
  - by exists t.
  - exists (t +:+ ", Milk"). rewrite Ht, app_string_assoc. split; [done|].
    rewrite length_app_string, Hlen. simpl. lia.
  - exists (t +:+ ", Sugar"). rewrite Ht, app_string_assoc. split; [done|].
    rewrite length_app_string, Hlen. simpl. lia.
Qed.

(** Milk before sugar and sugar before milk cost the same, but they are
    described differently. *)
Theorem wrapping_order c :
  cost (MilkDecorator (SugarDecorator c))
  = cost (SugarDecorator (MilkDecorator c))
  /\ description (MilkDecorator (SugarDecorator c))
     ≠ description (SugarDecorator (MilkDecorator c)).
Proof.
  split; [simpl; lia|]. simpl. rewrite !app_string_assoc.
  intros H. by apply (inj (String.app (description c))) in H.
Qed.

End DecoratorFacts.

(** ** Singleton *)

Module SingletonFacts.

Import Singleton.

Lemma getInstances_set r k n :
  getInstances n {| instance := Some r; constructed := k |}
  = (replicate n r, {| instance := Some r; constructed := k |}).
Proof. induction n as [|n IH]; simpl; [done|]. by rewrite IH. Qed.

(** However often [getInstance] is called, every call returns the same
    reference, and at most one object is constructed: exactly one when the
    field was still [undefined] and there is at least one call. *)
Theorem getInstance_same_object n s :
  (exists r, (getInstances n s).1 = replicate n r)
  /\ (constructed (getInstances n s).2 <= S (constructed s))%nat
  /\ (instance s = None -> (0 < n)%nat ->
      constructed (getInstances n s).2 = S (constructed s)
      /\ instance (getInstances n s).2 = Some (constructed s)).
Proof.
  destruct n as [|n]; [split_and!; [by exists 0%nat|simpl; lia|lia]|].
  destruct s as [[r|] k]; simpl.
  - rewrite getInstances_set; simpl. split_and!; [by exists r|lia|done].
  - rewrite getInstances_set; simpl. split_and!; [by exists k|lia|done].
Qed.

Lemma getInstance_same_object_witness :
  instance loaded = None
  /\ (0 < 3)%nat
  /\ constructed (getInstances 3 loaded).2 = 1%nat
     /\ instance (getInstances 3 loaded).2 = Some 0%nat.
Proof.
  split; [reflexivity|]. split; [lia|].
  apply (getInstance_same_object 3 loaded); [reflexivity|lia].
Defined.

End SingletonFacts.
